(** * Whitelist cache and point ledger of src/main.py

    Shallow embedding of the local cache layer of the bot:
    - the UID whitelist cache [WHITELIST_CACHE] (a Python list of dicts
      with keys "uid", "expiry_date", "comment") and its operations
      [get_uid_entry], [add_uid_entry], [remove_uid_entry],
      [change_uid_entry], [load_cache_from_jsonbin];
    - the point ledger [POINTS_CACHE] (a Python dict user id -> int) and
      [get_user_points], [add_user_points], [deduct_user_points],
      [calculate_points_needed], [load_points_from_storage];
    - the command and modal handlers that call them (add points, add /
      remove / change UID, the days-available figure of the points views);
    - the display helpers [format_box_date] and the field packing of the
      "list all UIDs" view.

    The background pushes ([sync_in_background],
    [sync_points_in_background]) start a thread and return at once; their
    effect on the caches is nil, so they are modelled as a counter of
    triggered pushes in the state. *)

From Stdlib Require Import ZArith Lia Ascii.
From stdpp Require Import base gmap strings list.

Open Scope Z_scope.

(** ** Data model *)

(** One whitelist entry: {"uid": uid, "expiry_date": expiry, "comment": comment}. *)
Record entry := mk_entry {
  uid : string;
  expiry_date : string;
  comment : string
}.

(** Python's [entry["uid"] = new_uid]: the dict keeps its other fields. *)
Definition set_uid (new_uid : string) (e : entry) : entry :=
  mk_entry new_uid (expiry_date e) (comment e).

(** Globals of the whitelist cache: [WHITELIST_CACHE], [CACHE_LOADED] and
    the number of background pushes started so far. *)
Record cache_state := mk_cache {
  whitelist : list entry;
  cache_loaded : bool;
  cache_syncs : nat
}.

Definition initial_cache : cache_state := mk_cache [] false 0.

(** Globals of the ledger: [POINTS_CACHE] and the number of background
    pushes started so far. *)
Record points_state := mk_points {
  points : gmap string Z;
  points_syncs : nat
}.

(** [sync_in_background()] / [sync_points_in_background()]. *)
Definition sync_in_background (st : cache_state) : cache_state :=
  mk_cache (whitelist st) (cache_loaded st) (S (cache_syncs st)).

Definition sync_points_in_background (st : points_state) : points_state :=
  mk_points (points st) (S (points_syncs st)).

Definition uids (l : list entry) : list string := map uid l.

(** ** Entry cache *)

(** [get_uid_entry(uid)]: linear scan, returns a copy of the first match. *)
Fixpoint find_entry (u : string) (l : list entry) : option entry :=
  match l with
  | [] => None
  | e :: r => if String.eqb (uid e) u then Some e else find_entry u r
  end.

Definition get_uid_entry (st : cache_state) (u : string) : option entry :=
  find_entry u (whitelist st).

(** The [for i, entry in enumerate(...)] loop of [add_uid_entry] with its
    [break]: the index of the first entry whose uid is [u]
    ([None] stands for [existing_index = -1]). *)
Fixpoint find_index (u : string) (l : list entry) : option nat :=
  match l with
  | [] => None
  | e :: r =>
      if String.eqb (uid e) u then Some 0%nat
      else option_map S (find_index u r)
  end.

(** [add_uid_entry(uid, expiry, comment)]: replace the first match in
    place ([WHITELIST_CACHE[existing_index] = new_entry]) or append; then
    start a push; always returns [True]. *)
Definition add_uid_entry (st : cache_state) (u expiry c : string)
    : bool * cache_state :=
  let new_entry := mk_entry u expiry c in
  let l := whitelist st in
  let l' := match find_index u l with
            | Some i => <[i := new_entry]> l
            | None => l ++ [new_entry]
            end in
  (true, sync_in_background (mk_cache l' (cache_loaded st) (cache_syncs st))).

(** [remove_uid_entry(uid)]: filter, detect removal by the length delta,
    push only when something was removed. *)
Definition remove_uid_entry (st : cache_state) (u : string)
    : bool * cache_state :=
  let original_len := length (whitelist st) in
  let l' := List.filter (fun e => negb (String.eqb (uid e) u)) (whitelist st) in
  let removed := negb (Nat.eqb (length l') original_len) in
  let st' := mk_cache l' (cache_loaded st) (cache_syncs st) in
  if removed then (true, sync_in_background st') else (false, st').

(** Outcome strings of [change_uid_entry]. *)
Inductive change_reason := NEW_UID_EXISTS | SUCCESS | OLD_UID_NOT_FOUND.

(** The second loop of [change_uid_entry]: set the uid of the first entry
    whose uid is [old_uid]; [None] when the loop finds none. *)
Fixpoint rename_first (old_uid new_uid : string) (l : list entry)
    : option (list entry) :=
  match l with
  | [] => None
  | e :: r =>
      if String.eqb (uid e) old_uid then Some (set_uid new_uid e :: r)
      else option_map (cons e) (rename_first old_uid new_uid r)
  end.

(** [change_uid_entry(old_uid, new_uid)]: collision check, then the
    in-place rename of the first [old_uid] entry, all under one lock. *)
Definition change_uid_entry (st : cache_state) (old_uid new_uid : string)
    : (bool * change_reason) * cache_state :=
  if existsb (fun e => String.eqb (uid e) new_uid) (whitelist st)
  then ((false, NEW_UID_EXISTS), st)
  else match rename_first old_uid new_uid (whitelist st) with
       | Some l' =>
           ((true, SUCCESS),
            sync_in_background (mk_cache l' (cache_loaded st) (cache_syncs st)))
       | None => ((false, OLD_UID_NOT_FOUND), st)
       end.

(** The registry operations a caller can issue, and their replay. *)
Inductive cache_op :=
  | OpAdd (u expiry c : string)
  | OpRemove (u : string)
  | OpRename (old_uid new_uid : string).

Definition run_op (st : cache_state) (o : cache_op) : cache_state :=
  match o with
  | OpAdd u x c => snd (add_uid_entry st u x c)
  | OpRemove u => snd (remove_uid_entry st u)
  | OpRename a b => snd (change_uid_entry st a b)
  end.

(** Every state observed while running [ops] from [st], [st] included. *)
Fixpoint trace (st : cache_state) (ops : list cache_op) : list cache_state :=
  match ops with
  | [] => [st]
  | o :: rest => st :: trace (run_op st o) rest
  end.

(** ** Backing-store GET *)

(** The top-level shape of a parsed JSON body: an array of entry dicts, an
    object of user id -> points, or any other JSON value. *)
Inductive json_doc :=
  | JList (l : list entry)
  | JDict (m : gmap string Z)
  | JOther.

(** What [requests.get(...)] followed by [response.json()] can produce:
    an exception from the network call, or a response with its status and
    its body ([None] when [response.json()] raises). *)
Inductive get_outcome :=
  | NetworkError
  | Response (status : Z) (body : option json_doc).

(** [load_cache_from_jsonbin()]: on status 200 with a parsed body, the
    cache becomes the body if it is a list and [[]] otherwise; every other
    path is caught by [except Exception] or the [else] branch and returns
    [False] without touching the cache. *)
Definition load_cache_from_jsonbin (st : cache_state) (r : get_outcome)
    : bool * cache_state :=
  match r with
  | NetworkError => (false, st)
  | Response status body =>
      if Z.eqb status 200 then
        match body with
        | None => (false, st)
        | Some data =>
            let l := match data with JList l => l | _ => [] end in
            (true, mk_cache l true (cache_syncs st))
        end
      else (false, st)
  end.

(** [load_points_from_storage()]: same protocol, keeping the body when it
    is a dict and [{}] otherwise. *)
Definition load_points_from_storage (st : points_state) (r : get_outcome)
    : bool * points_state :=
  match r with
  | NetworkError => (false, st)
  | Response status body =>
      if Z.eqb status 200 then
        match body with
        | None => (false, st)
        | Some data =>
            let m := match data with JDict m => m | _ => ∅ end in
            (true, mk_points m (points_syncs st))
        end
      else (false, st)
  end.

(** ** Ledger *)

Definition POINTS_PER_DAY : Z := 5.

(** [get_user_points(user_id)]: [POINTS_CACHE.get(str(user_id), 0)]. *)
Definition get_user_points (st : points_state) (user_id : string) : Z :=
  default 0 (points st !! user_id).

(** [add_user_points(user_id, amount)]: no check on [amount]. *)
Definition add_user_points (st : points_state) (user_id : string) (amount : Z)
    : Z * points_state :=
  let current := get_user_points st user_id in
  let new_balance := current + amount in
  (new_balance,
   sync_points_in_background
     (mk_points (<[user_id := new_balance]> (points st)) (points_syncs st))).

(** [deduct_user_points(user_id, amount)]: check and subtraction in one
    lock hold; no push on failure. *)
Definition deduct_user_points (st : points_state) (user_id : string) (amount : Z)
    : (bool * Z) * points_state :=
  let current := get_user_points st user_id in
  if current <? amount then ((false, current), st)
  else
    let new_balance := current - amount in
    ((true, new_balance),
     sync_points_in_background
       (mk_points (<[user_id := new_balance]> (points st)) (points_syncs st))).

(** [calculate_points_needed(days)]. *)
Definition calculate_points_needed (days : Z) : Z := days * POINTS_PER_DAY.

(** ** Ledger callers *)

(** Outcome of [AddPointsModal.on_submit] after [int(amount_input)] has
    parsed: with [POINTS_ENABLED] off it reports the system disabled;
    otherwise the amount is checked before the ledger is called. (The
    button that opens the modal checks the guild owner first; that
    permission check is not modelled.) *)
Inductive add_points_result :=
  | PointsDisabled
  | InvalidAmount
  | PointsAdded (new_balance : Z).

Definition add_points_submit (points_enabled : bool) (st : points_state)
    (user_id : string) (amount : Z) : add_points_result * points_state :=
  if negb points_enabled then (PointsDisabled, st)
  else if amount <=? 0 then (InvalidAmount, st)
  else let '(nb, st') := add_user_points st user_id amount in
       (PointsAdded nb, st').

(** The ledger part of the add-UID modal handler with the point system
    enabled: reject [days <= 0], pre-check the balance, then debit. *)
Inductive purchase_result :=
  | InvalidDays
  | NotEnoughPoints (current : Z)
  | Charged (points_needed remaining : Z).

Definition purchase_days (st : points_state) (user_id : string) (days : Z)
    : purchase_result * points_state :=
  if days <=? 0 then (InvalidDays, st)
  else
    let points_needed := calculate_points_needed days in
    let current_points := get_user_points st user_id in
    if current_points <? points_needed then (NotEnoughPoints current_points, st)
    else
      let '((ok, remaining), st') := deduct_user_points st user_id points_needed in
      if ok then (Charged points_needed remaining, st')
      else (NotEnoughPoints remaining, st').

(** Every stored balance is non-negative. *)
Definition ledger_nonneg (m : gmap string Z) : Prop :=
  map_Forall (fun _ v => 0 <= v) m.

(** ** Sequences of debits *)

(** Debits on one account one after another, as [POINTS_LOCK] serialises
    them; the log keeps each call's success flag with its amount. *)
Fixpoint run_debits (st : points_state) (user_id : string) (amounts : list Z)
    : list (bool * Z) * points_state :=
  match amounts with
  | [] => ([], st)
  | a :: rest =>
      let '((ok, _), st1) := deduct_user_points st user_id a in
      let '(log, st2) := run_debits st1 user_id rest in
      ((ok, a) :: log, st2)
  end.

(** The sum of the amounts whose debit reported success. *)
Fixpoint charged_total (log : list (bool * Z)) : Z :=
  match log with
  | [] => 0
  | (ok, a) :: rest => (if ok then a else 0) + charged_total rest
  end.


(** ** Whitelist modal handlers *)

(** The globals the modal handlers read and write. *)
Record bot_state := mk_bot {
  bot_cache : cache_state;
  bot_ledger : points_state;
  whitelist_paused : bool
}.

Inductive add_uid_outcome :=
  | AddPaused
  | AddInvalidDays
  | AddNotEnoughPoints (current : Z)
  | AddDeductFailed
  | UidAdded (points_needed remaining : Z)
  | UidUpdated (points_needed remaining : Z)
  | AddSaveFailed.

(** [AddUIDModal.on_submit] after parsing: [days] is [int(days_input)]
    and [expiry] is the date [days] days from now, as computed by the
    handler from the clock. *)
Definition add_uid_submit (points_enabled : bool) (st : bot_state)
    (user_id u : string) (days : Z) (expiry c : string)
    : add_uid_outcome * bot_state :=
  if whitelist_paused st then (AddPaused, st)
  else if days <=? 0 then (AddInvalidDays, st)
  else
    let charge :=
      if points_enabled then
        let points_needed := calculate_points_needed days in
        let current_points := get_user_points (bot_ledger st) user_id in
        if current_points <? points_needed then inl (AddNotEnoughPoints current_points)
        else
          let '((success_deduct, remaining_points), l') :=
            deduct_user_points (bot_ledger st) user_id points_needed in
          if success_deduct then inr (points_needed, remaining_points, l')
          else inl AddDeductFailed
      else inr (0, 0, bot_ledger st) in
    match charge with
    | inl out => (out, st)
    | inr (points_needed, remaining_points, l') =>
        let existing_entry := get_uid_entry (bot_cache st) u in
        let '(success, c') := add_uid_entry (bot_cache st) u expiry c in
        if success then
          (match existing_entry with
           | Some _ => UidUpdated points_needed remaining_points
           | None => UidAdded points_needed remaining_points
           end, mk_bot c' l' (whitelist_paused st))
        else
          (AddSaveFailed,
           mk_bot c' (if points_enabled then snd (add_user_points l' user_id points_needed)
                      else l') (whitelist_paused st))
    end.

Inductive remove_outcome := RemovePaused | Removed | RemoveNotFound.

(** [RemoveUIDModal.on_submit]. *)
Definition remove_uid_submit (st : bot_state) (u : string) : remove_outcome * bot_state :=
  if whitelist_paused st then (RemovePaused, st)
  else
    let '(success, c') := remove_uid_entry (bot_cache st) u in
    (if success then Removed else RemoveNotFound,
     mk_bot c' (bot_ledger st) (whitelist_paused st)).

Inductive change_outcome :=
  | ChangePaused | ChangeSameUid | Changed | ChangeOldNotFound | ChangeNewExists
  | ChangeError.

(** [ChangeUIDModal.on_submit]. *)
Definition change_uid_submit (st : bot_state) (old_uid new_uid : string)
    : change_outcome * bot_state :=
  if whitelist_paused st then (ChangePaused, st)
  else if String.eqb old_uid new_uid then (ChangeSameUid, st)
  else
    let '((success, status), c') := change_uid_entry (bot_cache st) old_uid new_uid in
    (if success then Changed
     else match status with
          | OLD_UID_NOT_FOUND => ChangeOldNotFound
          | NEW_UID_EXISTS => ChangeNewExists
          | SUCCESS => ChangeError
          end,
     mk_bot c' (bot_ledger st) (whitelist_paused st)).

(** ** Display helpers *)

(** Python's [s.split("-")]: the pieces between the dashes, empty pieces
    included. Strings are byte strings here; a '-' byte never occurs
    inside a multi-byte UTF-8 sequence, so the pieces are the same. *)
Fixpoint split_dash (s : string) : list string :=
  match s with
  | EmptyString => [EmptyString]
  | String a r =>
      if Ascii.eqb a "-"%char then EmptyString :: split_dash r
      else match split_dash r with
           | h :: t => String a h :: t
           | [] => [String a EmptyString]
           end
  end.

Fixpoint count_dash (s : string) : nat :=
  match s with
  | EmptyString => 0
  | String a r => (if Ascii.eqb a "-"%char then 1 else 0) + count_dash r
  end.

(** [format_box_date(raw)]: "YYYY-MM-DD" becomes "DD - MM - YYYY"; when
    the unpacking [y, m, d = raw.split("-")] raises, [raw] comes back. *)
Definition format_box_date (raw : string) : string :=
  match split_dash raw with
  | [y; m; d] => String.append d (String.append " - " (String.append m (String.append " - " y)))
  | _ => raw
  end.

(** A Python [str] as its list of code points, [len] being [length]. *)
Abbreviation pystr := (list Z).

(** The field-packing loop of [list_uids_button]: lines are appended to
    [uid_list] until the next one would take it past 1000 characters; then
    [uid_list] becomes a field and restarts from that line. The returned
    list holds the field values in order, the last one added only when
    [uid_list] is not empty. *)
Definition pack_step (acc : list pystr * pystr) (line : pystr) : list pystr * pystr :=
  let '(fields, uid_list) := acc in
  if Nat.ltb 1000 (length uid_list + length line) then (fields ++ [uid_list], line)
  else (fields, uid_list ++ line).

Definition list_uid_fields (lines : list pystr) : list pystr :=
  let '(fields, uid_list) := fold_left pack_step lines ([], []) in
  match uid_list with
  | [] => fields
  | _ => fields ++ [uid_list]
  end.

(** ** Lemmas on the entry cache *)

Lemma uids_app (l1 l2 : list entry) : uids (l1 ++ l2) = uids l1 ++ uids l2.
Proof. unfold uids. apply map_app. Qed.

Lemma find_index_insert (u : string) (x : entry) (l : list entry) (i : nat) :
  find_index u l = Some i -> uid x = u -> uids (<[i := x]> l) = uids l.
Proof.
  revert i. induction l as [|e r IH]; intros i Hf Hx; simpl in Hf; [discriminate|].
  destruct (String.eqb (uid e) u) eqn:He.
  - injection Hf as <-. apply String.eqb_eq in He. simpl. congruence.
  - destruct (find_index u r) as [j|] eqn:Hr; simpl in Hf; [|discriminate].
    injection Hf as <-. simpl. f_equal. apply IH; auto.
Qed.

Lemma find_index_None (u : string) (l : list entry) :
  find_index u l = None -> ~ In u (uids l).
Proof.
  induction l as [|e r IH]; simpl; [tauto|].
  destruct (String.eqb (uid e) u) eqn:He; [discriminate|].
  destruct (find_index u r); simpl; [discriminate|].
  intros _ [Heq|Hin].
  - apply String.eqb_neq in He. contradiction.
  - apply IH; auto.
Qed.

Lemma existsb_uid_false (u : string) (l : list entry) :
  existsb (fun e => String.eqb (uid e) u) l = false -> ~ In u (uids l).
Proof.
  induction l as [|e r IH]; simpl; [tauto|].
  intros H. apply orb_false_iff in H as [He Hr].
  intros [Heq|Hin].
  - apply String.eqb_neq in He. contradiction.
  - apply IH; auto.
Qed.

Lemma existsb_uid_true (u : string) (l : list entry) :
  In u (uids l) -> existsb (fun e => String.eqb (uid e) u) l = true.
Proof.
  induction l as [|e r IH]; simpl; [tauto|].
  intros [Heq|Hin]; apply orb_true_iff.
  - left. apply String.eqb_eq. auto.
  - right. auto.
Qed.

Lemma filter_uids_nodup (f : entry -> bool) (l : list entry) :
  NoDup (uids l) -> NoDup (uids (List.filter f l)).
Proof.
  induction l as [|e r IH]; simpl; intros Hnd; [constructor|].
  inversion Hnd as [|? ? Hnotin Hnd']; subst.
  destruct (f e); simpl; [|auto].
  constructor; [|auto].
  intros Hin. apply Hnotin. rewrite list_elem_of_In in Hin |- *. unfold uids in *.
  apply in_map_iff in Hin as (e' & <- & He'). apply filter_In in He' as [He' _].
  apply in_map. auto.
Qed.

Lemma rename_first_in (o n x : string) (l l' : list entry) :
  rename_first o n l = Some l' -> In x (uids l') -> In x (uids l) \/ x = n.
Proof.
  revert l'. induction l as [|e r IH]; intros l' Hr Hin; simpl in Hr; [discriminate|].
  destruct (String.eqb (uid e) o).
  - injection Hr as <-. simpl in Hin. destruct Hin as [<-|Hin]; simpl; auto.
  - destruct (rename_first o n r) as [r'|] eqn:Hr'; simpl in Hr; [|discriminate].
    injection Hr as <-. simpl in Hin. destruct Hin as [<-|Hin]; simpl; [auto|].
    destruct (IH r' eq_refl Hin); auto.
Qed.

Lemma rename_first_nodup (o n : string) (l l' : list entry) :
  rename_first o n l = Some l' -> ~ In n (uids l) -> NoDup (uids l) ->
  NoDup (uids l').
Proof.
  revert l'. induction l as [|e r IH]; intros l' Hr Hn Hnd; simpl in Hr; [discriminate|].
  inversion Hnd as [|? ? Hnotin Hnd']; subst.
  simpl in Hn.
  destruct (String.eqb (uid e) o).
  - injection Hr as <-. simpl. constructor; [|auto].
    rewrite list_elem_of_In. tauto.
  - destruct (rename_first o n r) as [r'|] eqn:Hr'; simpl in Hr; [|discriminate].
    injection Hr as <-. simpl. constructor; [|auto].
    rewrite list_elem_of_In. intros Hin.
    destruct (rename_first_in o n (uid e) r r' Hr' Hin) as [H|H].
    + apply Hnotin, list_elem_of_In. auto.
    + apply Hn. auto.
Qed.

(** Every registry operation keeps the uids of the cache pairwise distinct. *)
Lemma run_op_nodup (st : cache_state) (o : cache_op) :
  NoDup (uids (whitelist st)) -> NoDup (uids (whitelist (run_op st o))).
Proof.
  intros Hnd. destruct o as [u x c|u|a b]; simpl.
  - unfold add_uid_entry. simpl.
    destruct (find_index u (whitelist st)) as [i|] eqn:Hf.
    + rewrite (find_index_insert u (mk_entry u x c) _ i Hf eq_refl). auto.
    + rewrite uids_app. simpl. apply NoDup_app. split; [auto|]. split.
      * intros y Hy Hy'. apply list_elem_of_singleton in Hy' as ->.
        apply (find_index_None u _ Hf). apply list_elem_of_In. auto.
      * apply NoDup_singleton.
  - unfold remove_uid_entry.
    destruct (negb _); simpl; apply filter_uids_nodup; auto.
  - unfold change_uid_entry.
    destruct (existsb _ _) eqn:He; [auto|].
    destruct (rename_first a b (whitelist st)) as [l'|] eqn:Hr; simpl; [|auto].
    apply (rename_first_nodup a b (whitelist st)); auto.
    apply existsb_uid_false; auto.
Qed.

Lemma trace_nodup (st : cache_state) (ops : list cache_op) :
  NoDup (uids (whitelist st)) ->
  Forall (fun s => NoDup (uids (whitelist s))) (trace st ops).
Proof.
  revert st. induction ops as [|o rest IH]; intros st Hnd; simpl.
  - constructor; auto.
  - constructor; auto. apply IH. apply run_op_nodup. auto.
Qed.

(** ** Lemmas on the ledger *)

Lemma get_user_points_nonneg (st : points_state) (u : string) :
  ledger_nonneg (points st) -> 0 <= get_user_points st u.
Proof.
  intros H. unfold get_user_points.
  destruct (points st !! u) as [v|] eqn:Hv; simpl; [|lia].
  exact (H u v Hv).
Qed.

(** ** Lemmas on the first match of a uid *)

Lemma find_index_split (u : string) (pre suf : list entry) (e : entry) :
  ~ In u (uids pre) -> uid e = u ->
  find_index u (pre ++ e :: suf) = Some (length pre).
Proof.
  induction pre as [|p pre IH]; intros Hpre He; simpl.
  - rewrite He, String.eqb_refl. reflexivity.
  - simpl in Hpre. destruct (String.eqb (uid p) u) eqn:Hp.
    + apply String.eqb_eq in Hp. tauto.
    + rewrite IH; auto.
Qed.

Lemma find_entry_split (u : string) (pre suf : list entry) (e : entry) :
  ~ In u (uids pre) -> uid e = u -> find_entry u (pre ++ e :: suf) = Some e.
Proof.
  induction pre as [|p pre IH]; intros Hpre He; simpl.
  - rewrite He, String.eqb_refl. reflexivity.
  - simpl in Hpre. destruct (String.eqb (uid p) u) eqn:Hp.
    + apply String.eqb_eq in Hp. tauto.
    + auto.
Qed.

Lemma insert_at_split (pre suf : list entry) (e x : entry) :
  <[length pre := x]> (pre ++ e :: suf) = pre ++ x :: suf.
Proof. induction pre as [|p pre IH]; simpl; [reflexivity|]. rewrite IH. reflexivity. Qed.

Lemma rename_first_split (o n : string) (l l' : list entry) :
  rename_first o n l = Some l' ->
  exists pre e suf, l = pre ++ e :: suf /\ uid e = o /\ ~ In o (uids pre) /\
                    l' = pre ++ set_uid n e :: suf.
Proof.
  revert l'. induction l as [|e r IH]; intros l' Hr; simpl in Hr; [discriminate|].
  destruct (String.eqb (uid e) o) eqn:He.
  - injection Hr as <-. apply String.eqb_eq in He.
    exists [], e, r. simpl. auto.
  - destruct (rename_first o n r) as [r'|] eqn:Hr'; simpl in Hr; [|discriminate].
    injection Hr as <-. destruct (IH r' eq_refl) as (pre & e' & suf & -> & He' & Hpre & ->).
    exists (e :: pre), e', suf. simpl. repeat split; auto.
    intros [Heq|Hin]; [|contradiction].
    apply String.eqb_neq in He. congruence.
Qed.

Lemma nodup_split_suffix (pre suf : list entry) (e : entry) :
  NoDup (uids (pre ++ e :: suf)) -> ~ In (uid e) (uids suf).
Proof.
  rewrite uids_app. simpl. intros Hnd Hin.
  apply NoDup_app in Hnd as (_ & _ & Hnd).
  inversion Hnd as [|? ? Hnotin _]; subst.
  apply Hnotin, list_elem_of_In. auto.
Qed.

(** ** Claims *)

(** C1: for every sequence of add / remove / rename operations run from
    the empty cache, no two entries of the cache share a uid in any of the
    states the run goes through. *)
Theorem whitelist_uids_unique (ops : list cache_op) :
  Forall (fun s => NoDup (uids (whitelist s))) (trace initial_cache ops).
Proof. apply trace_nodup. constructor. Qed.

(** C2: [deduct_user_points] reads the current balance (0 for an unknown
    user); when it is below the amount it returns [(False, current)] and
    leaves the state as it was (no mutation, no push); otherwise it
    returns [(True, current - amount)], stores that balance and starts a
    push. *)
Theorem deduct_user_points_spec (st : points_state) (u : string) (amount : Z) :
  (points st !! u = None -> get_user_points st u = 0) /\
  (get_user_points st u < amount ->
   deduct_user_points st u amount = ((false, get_user_points st u), st)) /\
  (amount <= get_user_points st u ->
   exists st', deduct_user_points st u amount
               = ((true, get_user_points st u - amount), st') /\
               points st' = <[u := get_user_points st u - amount]> (points st) /\
               points_syncs st' = S (points_syncs st)).
Proof.
  split; [|split].
  - intros H. unfold get_user_points. rewrite H. reflexivity.
  - intros H. unfold deduct_user_points.
    destruct (Z.ltb_spec (get_user_points st u) amount); [reflexivity|lia].
  - intros H. unfold deduct_user_points.
    destruct (Z.ltb_spec (get_user_points st u) amount); [lia|].
    eexists. split; [reflexivity|]. split; reflexivity.
Qed.

(** C3: from a ledger whose stored balances are all non-negative, a credit
    of a positive amount and any debit (successful or not, any amount)
    leave every stored balance non-negative. *)
Theorem ledger_nonneg_preserved (st : points_state) (u : string) (credit debit : Z) :
  ledger_nonneg (points st) ->
  (0 < credit -> ledger_nonneg (points (snd (add_user_points st u credit)))) /\
  ledger_nonneg (points (snd (deduct_user_points st u debit))).
Proof.
  intros Hnn. pose proof (get_user_points_nonneg st u Hnn) as Hcur. split.
  - intros Hc. simpl. apply map_Forall_insert_2; [lia|exact Hnn].
  - unfold deduct_user_points.
    destruct (Z.ltb_spec (get_user_points st u) debit); simpl; [exact Hnn|].
    apply map_Forall_insert_2; [lia|exact Hnn].
Qed.

Lemma ledger_nonneg_preserved_witness :
  ledger_nonneg (points (mk_points {["acc" := 10]} 0)) /\
  ((0 < 3 -> ledger_nonneg (points (snd (add_user_points (mk_points {["acc" := 10]} 0) "acc" 3)))) /\
   ledger_nonneg (points (snd (deduct_user_points (mk_points {["acc" := 10]} 0) "acc" 15)))).
Proof.
  assert (H : ledger_nonneg (points (mk_points {["acc" := 10]} 0))).
  { apply map_Forall_singleton. lia. }
  split; [exact H|].
  exact (ledger_nonneg_preserved (mk_points {["acc" := 10]} 0) "acc" 3 15 H).
Defined.

(** C4: when an entry with uid [new_uid] exists, [change_uid_entry]
    returns [(False, "NEW_UID_EXISTS")] and changes nothing; when none has
    [new_uid] and none has [old_uid], it returns
    [(False, "OLD_UID_NOT_FOUND")] and changes nothing. *)
Theorem change_uid_entry_failures (st : cache_state) (old_uid new_uid : string) :
  (In new_uid (uids (whitelist st)) ->
   change_uid_entry st old_uid new_uid = ((false, NEW_UID_EXISTS), st)) /\
  (~ In new_uid (uids (whitelist st)) -> ~ In old_uid (uids (whitelist st)) ->
   change_uid_entry st old_uid new_uid = ((false, OLD_UID_NOT_FOUND), st)).
Proof.
  split.
  - intros H. unfold change_uid_entry. rewrite existsb_uid_true; auto.
  - intros Hn Ho. unfold change_uid_entry.
    destruct (existsb _ _) eqn:He.
    + exfalso. apply Hn. apply existsb_exists in He as (e & Hin & Heq).
      apply String.eqb_eq in Heq. subst. apply in_map. auto.
    + destruct (rename_first old_uid new_uid (whitelist st)) as [l'|] eqn:Hr; [|reflexivity].
      exfalso. destruct (rename_first_split _ _ _ _ Hr) as (pre & e & suf & Hl & He' & _).
      apply Ho. rewrite Hl, uids_app. apply in_or_app. right. simpl. auto.
Qed.

(** A GET that fails: the request raises, the status is not 200, or the
    body does not parse. *)
Definition pull_failed (r : get_outcome) : Prop :=
  r = NetworkError \/
  exists status body, r = Response status body /\ (status <> 200 \/ body = None).

(** C5: when the pull fails, [load_cache_from_jsonbin] returns [False] and
    the cache (entries and loaded flag) is exactly as before. *)
Theorem load_cache_failure_keeps_cache (st : cache_state) (r : get_outcome) :
  pull_failed r -> load_cache_from_jsonbin st r = (false, st).
Proof.
  intros [->|(status & body & -> & [Hs| ->])]; simpl.
  - reflexivity.
  - destruct (Z.eqb_spec status 200); [contradiction|reflexivity].
  - destruct (Z.eqb status 200); reflexivity.
Qed.

Lemma load_cache_failure_keeps_cache_witness :
  pull_failed (Response 503 None) /\
  load_cache_from_jsonbin (mk_cache [mk_entry "A1" "2025-01-01" "x"] true 0)
    (Response 503 None) = (false, mk_cache [mk_entry "A1" "2025-01-01" "x"] true 0).
Proof.
  assert (H : pull_failed (Response 503 None)).
  { right. exists 503, None. split; [reflexivity|]. left. lia. }
  split; [exact H|].
  exact (load_cache_failure_keeps_cache _ _ H).
Defined.

(** C6 (as stated, refuted): a non-success status does not empty the
    cache; a failed reload keeps the previous entries. *)
Lemma load_non_success_not_empty :
  whitelist (snd (load_cache_from_jsonbin
                    (mk_cache [mk_entry "A1" "2025-01-01" "x"] true 0)
                    (Response 404 None))) <> [].
Proof. simpl. discriminate. Qed.

(** C6 (amended): for both loaders, a 200 response whose body is of the
    wrong shape (not a list for entries, not a dict for points) is stored
    as an empty collection and reported as success; a non-200 status, a
    raised request or an unparsable body is reported as failure and keeps
    the previous cache. Both functions are total: nothing is raised. *)
Theorem load_shape_mismatch_and_failures (st : cache_state) (pst : points_state) :
  (forall d, (forall l, d <> JList l) ->
   load_cache_from_jsonbin st (Response 200 (Some d))
   = (true, mk_cache [] true (cache_syncs st))) /\
  (forall d, (forall m, d <> JDict m) ->
   load_points_from_storage pst (Response 200 (Some d))
   = (true, mk_points ∅ (points_syncs pst))) /\
  (forall r, pull_failed r ->
   load_cache_from_jsonbin st r = (false, st) /\
   load_points_from_storage pst r = (false, pst)).
Proof.
  split; [|split].
  - intros [l|m|] Hd; simpl; [|reflexivity|reflexivity].
    exfalso. exact (Hd l eq_refl).
  - intros [l|m|] Hd; simpl; [reflexivity| |reflexivity].
    exfalso. exact (Hd m eq_refl).
  - intros r [->|(status & body & -> & [Hs| ->])]; simpl.
    + split; reflexivity.
    + destruct (Z.eqb_spec status 200); [contradiction|]. split; reflexivity.
    + destruct (Z.eqb status 200); split; reflexivity.
Qed.

(** C7 (as stated, refuted): a credit of [-5] to an unknown user is not
    rejected: it stores [-5]; a debit of [0] succeeds. *)
Lemma ledger_accepts_non_positive :
  points (snd (add_user_points (mk_points ∅ 0) "u" (-5))) = {["u" := -5]} /\
  points (snd (add_user_points (mk_points ∅ 0) "u" (-5))) <> ∅ /\
  fst (deduct_user_points (mk_points ∅ 0) "u" 0) = (true, 0).
Proof.
  split; [reflexivity|]. split; [|reflexivity].
  simpl. apply insert_non_empty.
Qed.

(** C7 (amended): [add_user_points] and [deduct_user_points] do not check
    the amount: a non-positive credit is stored as [current + amount], and
    a non-positive debit on a non-negative balance succeeds and stores
    [current - amount]. The rejection of non-positive quantities is done by
    the callers, whatever the balance: the add-points form (point system
    on) rejects [amount <= 0], and the add-UID flow rejects [days <= 0],
    before any ledger call, leaving the ledger unchanged; with the point
    system off the add-points form reports it disabled and does nothing. *)
Theorem non_positive_amounts_rejected_by_callers
    (st : points_state) (u : string) (amount : Z) :
  amount <= 0 ->
  points (snd (add_user_points st u amount))
    = <[u := get_user_points st u + amount]> (points st) /\
  (0 <= get_user_points st u ->
   fst (deduct_user_points st u amount) = (true, get_user_points st u - amount) /\
   points (snd (deduct_user_points st u amount))
     = <[u := get_user_points st u - amount]> (points st)) /\
  add_points_submit true st u amount = (InvalidAmount, st) /\
  add_points_submit false st u amount = (PointsDisabled, st) /\
  (forall days, days <= 0 -> purchase_days st u days = (InvalidDays, st)).
Proof.
  intros Ha. split; [reflexivity|]. split; [|split; [|split]].
  - intros Hcur. unfold deduct_user_points.
    destruct (Z.ltb_spec (get_user_points st u) amount); [lia|].
    split; reflexivity.
  - unfold add_points_submit. simpl. destruct (Z.leb_spec amount 0); [reflexivity|lia].
  - reflexivity.
  - intros days Hd. unfold purchase_days. destruct (Z.leb_spec days 0); [reflexivity|lia].
Qed.

Lemma non_positive_amounts_rejected_by_callers_witness :
  -5 <= 0 /\
  add_points_submit true (mk_points {["acc" := -3]} 0) "acc" (-5)
    = (InvalidAmount, mk_points {["acc" := -3]} 0) /\
  purchase_days (mk_points {["acc" := -3]} 0) "acc" 0
    = (InvalidDays, mk_points {["acc" := -3]} 0).
Proof.
  assert (H1 : -5 <= 0) by lia.
  destruct (non_positive_amounts_rejected_by_callers (mk_points {["acc" := -3]} 0) "acc" (-5) H1)
    as (_ & _ & Hsub & _ & Hdays).
  split; [exact H1|]. split; [exact Hsub|].
  apply Hdays. lia.
Defined.

(** C8: on a cache with distinct uids, a successful [change_uid_entry]
    replaces the single entry whose uid is [old_uid] by one with uid
    [new_uid] and the same expiry date and comment; every other entry
    keeps its value and position. *)
Theorem change_uid_entry_frame (st st' : cache_state) (old_uid new_uid : string) :
  NoDup (uids (whitelist st)) ->
  change_uid_entry st old_uid new_uid = ((true, SUCCESS), st') ->
  exists pre e suf e',
    whitelist st = pre ++ e :: suf /\
    uid e = old_uid /\ ~ In old_uid (uids pre) /\ ~ In old_uid (uids suf) /\
    whitelist st' = pre ++ e' :: suf /\
    uid e' = new_uid /\ expiry_date e' = expiry_date e /\ comment e' = comment e.
Proof.
  intros Hnd. unfold change_uid_entry.
  destruct (existsb _ _); [discriminate|].
  destruct (rename_first old_uid new_uid (whitelist st)) as [l'|] eqn:Hr; [|discriminate].
  intros Heq. injection Heq as <-.
  destruct (rename_first_split _ _ _ _ Hr) as (pre & e & suf & Hl & He & Hpre & ->).
  exists pre, e, suf, (set_uid new_uid e).
  rewrite Hl in Hnd. pose proof (nodup_split_suffix _ _ _ Hnd) as Hsuf.
  rewrite He in Hsuf. simpl. repeat split; auto.
Qed.

Lemma change_uid_entry_frame_witness :
  exists st',
  NoDup (uids (whitelist (mk_cache [mk_entry "A1" "2025-01-01" "x";
                                    mk_entry "B7" "2025-02-01" "y"] true 0))) /\
  change_uid_entry (mk_cache [mk_entry "A1" "2025-01-01" "x";
                              mk_entry "B7" "2025-02-01" "y"] true 0) "A1" "A2"
    = ((true, SUCCESS), st') /\
  exists pre e suf e',
    whitelist (mk_cache [mk_entry "A1" "2025-01-01" "x";
                         mk_entry "B7" "2025-02-01" "y"] true 0) = pre ++ e :: suf /\
    uid e = "A1" /\ ~ In "A1" (uids pre) /\ ~ In "A1" (uids suf) /\
    whitelist st' = pre ++ e' :: suf /\
    uid e' = "A2" /\ expiry_date e' = expiry_date e /\ comment e' = comment e.
Proof.
  eexists.
  assert (H1 : NoDup (uids (whitelist (mk_cache [mk_entry "A1" "2025-01-01" "x";
                                                 mk_entry "B7" "2025-02-01" "y"] true 0)))).
  { simpl. apply NoDup_cons. split; [|apply NoDup_singleton].
    rewrite list_elem_of_singleton. discriminate. }
  assert (H2 : change_uid_entry (mk_cache [mk_entry "A1" "2025-01-01" "x";
                                           mk_entry "B7" "2025-02-01" "y"] true 0) "A1" "A2"
               = ((true, SUCCESS), mk_cache [mk_entry "A2" "2025-01-01" "x";
                                            mk_entry "B7" "2025-02-01" "y"] true 1)).
  { vm_compute. reflexivity. }
  split; [exact H1|]. split; [exact H2|].
  exact (change_uid_entry_frame _ _ "A1" "A2" H1 H2).
Defined.

(** C9: the price of [days] days is [days * POINTS_PER_DAY] with
    [POINTS_PER_DAY = 5], so doubling the days doubles the price. *)
Theorem calculate_points_needed_linear (days : Z) :
  calculate_points_needed days = days * POINTS_PER_DAY /\ POINTS_PER_DAY = 5 /\
  calculate_points_needed (2 * days) = 2 * calculate_points_needed days.
Proof. unfold calculate_points_needed, POINTS_PER_DAY. repeat split; lia. Qed.

(** C10: when the cache holds several entries with uid [u] (the first one
    being [e], after the prefix [pre]), [add_uid_entry] replaces only that
    first entry and keeps the later duplicates, and [get_uid_entry]
    returns the first one. *)
Theorem add_uid_entry_first_duplicate
    (st : cache_state) (pre suf : list entry) (e : entry) (u expiry c : string) :
  whitelist st = pre ++ e :: suf -> uid e = u ->
  ~ In u (uids pre) -> In u (uids suf) ->
  whitelist (snd (add_uid_entry st u expiry c)) = pre ++ mk_entry u expiry c :: suf /\
  get_uid_entry st u = Some e.
Proof.
  intros Hl He Hpre _. split.
  - unfold add_uid_entry. simpl. rewrite Hl, (find_index_split u pre suf e Hpre He).
    apply insert_at_split.
  - unfold get_uid_entry. rewrite Hl. apply find_entry_split; auto.
Qed.

Lemma add_uid_entry_first_duplicate_witness :
  whitelist (snd (add_uid_entry
    (mk_cache [mk_entry "C3" "2024-05-05" "z"; mk_entry "A1" "2025-01-01" "x";
               mk_entry "A1" "2025-03-03" "dup"] true 0) "A1" "2026-01-01" "new"))
    = [mk_entry "C3" "2024-05-05" "z"] ++ mk_entry "A1" "2026-01-01" "new"
        :: [mk_entry "A1" "2025-03-03" "dup"] /\
  get_uid_entry (mk_cache [mk_entry "C3" "2024-05-05" "z"; mk_entry "A1" "2025-01-01" "x";
                           mk_entry "A1" "2025-03-03" "dup"] true 0) "A1"
    = Some (mk_entry "A1" "2025-01-01" "x").
Proof.
  apply (add_uid_entry_first_duplicate
           (mk_cache [mk_entry "C3" "2024-05-05" "z"; mk_entry "A1" "2025-01-01" "x";
                      mk_entry "A1" "2025-03-03" "dup"] true 0)
           [mk_entry "C3" "2024-05-05" "z"] [mk_entry "A1" "2025-03-03" "dup"]
           (mk_entry "A1" "2025-01-01" "x")).
  - reflexivity.
  - reflexivity.
  - simpl. intros [H|[]]. discriminate.
  - simpl. left. reflexivity.
Defined.

(** ** Further properties of the entry cache *)

Lemma filter_length_eqb (p : entry -> bool) (l : list entry) :
  Nat.eqb (length (List.filter p l)) (length l) = forallb p l.
Proof.
  induction l as [|e r IH]; simpl; [reflexivity|].
  destruct (p e); simpl; [exact IH|].
  apply Nat.eqb_neq. pose proof (filter_length_le p r). lia.
Qed.

Lemma forallb_filter_id (p : entry -> bool) (l : list entry) :
  forallb p l = true -> List.filter p l = l.
Proof.
  induction l as [|e r IH]; simpl; [reflexivity|].
  intros H. apply andb_true_iff in H as [He Hr]. rewrite He, IH; auto.
Qed.

Lemma forallb_neg_existsb (u : string) (l : list entry) :
  negb (forallb (fun e => negb (String.eqb (uid e) u)) l)
  = existsb (fun e => String.eqb (uid e) u) l.
Proof.
  induction l as [|e r IH]; simpl; [reflexivity|].
  rewrite negb_andb, negb_involutive, IH. reflexivity.
Qed.

Lemma existsb_uid_iff (u : string) (l : list entry) :
  existsb (fun e => String.eqb (uid e) u) l = true <-> In u (uids l).
Proof.
  split; [|apply existsb_uid_true].
  intros H. destruct (In_dec String.string_dec u (uids l)) as [Hin|Hnin]; [exact Hin|].
  exfalso. destruct (existsb _ l) eqn:He; [|discriminate].
  apply existsb_exists in He as (e & Hin & Heq). apply String.eqb_eq in Heq.
  apply Hnin. subst. apply in_map. exact Hin.
Qed.

Lemma find_entry_app_notin (u : string) (pre l : list entry) :
  ~ In u (uids pre) -> find_entry u (pre ++ l) = find_entry u l.
Proof.
  induction pre as [|p pre IH]; simpl; [reflexivity|].
  intros Hn. destruct (String.eqb (uid p) u) eqn:Hp.
  - apply String.eqb_eq in Hp. tauto.
  - apply IH. tauto.
Qed.

Lemma find_entry_notin (u : string) (l : list entry) :
  ~ In u (uids l) -> find_entry u l = None.
Proof.
  intros H. rewrite <- (app_nil_r l). rewrite find_entry_app_notin; auto.
Qed.

Lemma find_entry_filter_ne (u v : string) (l : list entry) :
  v <> u ->
  find_entry v (List.filter (fun e => negb (String.eqb (uid e) u)) l) = find_entry v l.
Proof.
  intros Hvu. induction l as [|e r IH]; simpl; [reflexivity|].
  destruct (String.eqb (uid e) u) eqn:Heu; simpl.
  - apply String.eqb_eq in Heu. destruct (String.eqb_spec (uid e) v); [congruence|].
    exact IH.
  - destruct (String.eqb (uid e) v); [reflexivity|exact IH].
Qed.

Lemma find_entry_index_insert (u : string) (x : entry) (l : list entry) (i : nat) :
  find_index u l = Some i -> uid x = u -> find_entry u (<[i := x]> l) = Some x.
Proof.
  revert i. induction l as [|e r IH]; intros i Hf Hx; simpl in Hf; [discriminate|].
  destruct (String.eqb (uid e) u) eqn:He.
  - injection Hf as <-. simpl. rewrite Hx, String.eqb_refl. reflexivity.
  - destruct (find_index u r) as [j|] eqn:Hr; simpl in Hf; [|discriminate].
    injection Hf as <-. simpl. rewrite He. apply IH; auto.
Qed.

Lemma find_entry_index_insert_ne (u v : string) (x : entry) (l : list entry) (i : nat) :
  find_index u l = Some i -> uid x = u -> v <> u ->
  find_entry v (<[i := x]> l) = find_entry v l.
Proof.
  revert i. induction l as [|e r IH]; intros i Hf Hx Hvu; simpl in Hf; [discriminate|].
  destruct (String.eqb (uid e) u) eqn:He.
  - injection Hf as <-. apply String.eqb_eq in He. simpl.
    destruct (String.eqb_spec (uid x) v); [congruence|].
    destruct (String.eqb_spec (uid e) v); [congruence|]. reflexivity.
  - destruct (find_index u r) as [j|] eqn:Hr; simpl in Hf; [|discriminate].
    injection Hf as <-. simpl. destruct (String.eqb (uid e) v); [reflexivity|].
    apply IH; auto.
Qed.

Lemma find_entry_snoc (u : string) (x : entry) (l : list entry) :
  find_entry u (l ++ [x]) =
  match find_entry u l with Some e => Some e | None => find_entry u [x] end.
Proof.
  induction l as [|e r IH]; simpl; [reflexivity|].
  destruct (String.eqb (uid e) u); [reflexivity|exact IH].
Qed.

Lemma find_index_Some_in (u : string) (l : list entry) (i : nat) :
  find_index u l = Some i -> In u (uids l).
Proof.
  revert i. induction l as [|e r IH]; intros i Hf; simpl in Hf; [discriminate|].
  simpl. destruct (String.eqb_spec (uid e) u); [left; auto|].
  destruct (find_index u r) as [j|] eqn:Hr; simpl in Hf; [|discriminate].
  right. apply (IH j eq_refl).
Qed.

Lemma rename_first_notin (o n : string) (l : list entry) :
  ~ In o (uids l) -> rename_first o n l = None.
Proof.
  induction l as [|e r IH]; simpl; [reflexivity|].
  intros Hn. destruct (String.eqb (uid e) o) eqn:He.
  - apply String.eqb_eq in He. tauto.
  - rewrite IH; [reflexivity|tauto].
Qed.

(** [remove_uid_entry] reports [True] exactly when some entry had the uid,
    and afterwards no entry has it, duplicates included. *)
Theorem remove_uid_entry_result (st : cache_state) (u : string) :
  (fst (remove_uid_entry st u) = true <-> In u (uids (whitelist st))) /\
  ~ In u (uids (whitelist (snd (remove_uid_entry st u)))).
Proof.
  unfold remove_uid_entry. rewrite filter_length_eqb, forallb_neg_existsb.
  split.
  - destruct (existsb _ _) eqn:He; simpl; rewrite <- existsb_uid_iff, He; split; auto.
  - assert (Hgone : ~ In u (uids (List.filter (fun e => negb (String.eqb (uid e) u))
                                              (whitelist st)))).
    { unfold uids. rewrite in_map_iff. intros (e & Heu & Hin).
      apply filter_In in Hin as [_ Hne]. rewrite Heu, String.eqb_refl in Hne.
      discriminate. }
    destruct (existsb _ _); exact Hgone.
Qed.

(** [remove_uid_entry] does not change what [get_uid_entry] returns for
    any other uid; when it reports [False] the state is untouched and no
    push is started. *)
Theorem remove_uid_entry_frame (st : cache_state) (u v : string) :
  (v <> u -> get_uid_entry (snd (remove_uid_entry st u)) v = get_uid_entry st v) /\
  (fst (remove_uid_entry st u) = false -> snd (remove_uid_entry st u) = st).
Proof.
  split.
  - intros Hvu. unfold remove_uid_entry, get_uid_entry.
    destruct (negb _); simpl; apply find_entry_filter_ne; exact Hvu.
  - unfold remove_uid_entry. rewrite filter_length_eqb.
    destruct (forallb _ _) eqn:Hall; simpl; [|discriminate].
    intros _. rewrite forallb_filter_id by exact Hall. destruct st; reflexivity.
Qed.

Lemma add_uid_entry_get_same (st : cache_state) (u expiry c : string) :
  get_uid_entry (snd (add_uid_entry st u expiry c)) u = Some (mk_entry u expiry c).
Proof.
  unfold add_uid_entry, get_uid_entry. simpl.
  destruct (find_index u (whitelist st)) as [i|] eqn:Hf.
  - apply (find_entry_index_insert u (mk_entry u expiry c) _ i Hf eq_refl).
  - rewrite find_entry_snoc, find_entry_notin by (apply find_index_None; exact Hf).
    simpl. rewrite String.eqb_refl. reflexivity.
Qed.

(** After [add_uid_entry u expiry comment], [get_uid_entry u] returns the
    new entry, whatever the cache held before (duplicates included). *)
Theorem add_then_get (st : cache_state) (u expiry c : string) :
  get_uid_entry (snd (add_uid_entry st u expiry c)) u = Some (mk_entry u expiry c).
Proof. apply add_uid_entry_get_same. Qed.

(** [add_uid_entry u ...] leaves [get_uid_entry v] unchanged for every
    other uid [v], and grows the cache by one entry exactly when [u] was
    absent (an update keeps the length). *)
Theorem add_uid_entry_frame (st : cache_state) (u v expiry c : string) :
  (v <> u ->
   get_uid_entry (snd (add_uid_entry st u expiry c)) v = get_uid_entry st v) /\
  length (whitelist (snd (add_uid_entry st u expiry c)))
  = (if existsb (fun e => String.eqb (uid e) u) (whitelist st)
     then length (whitelist st) else S (length (whitelist st))).
Proof.
  unfold add_uid_entry, get_uid_entry. simpl.
  destruct (find_index u (whitelist st)) as [i|] eqn:Hf.
  - split.
    + intros Hvu.
      apply (find_entry_index_insert_ne u v (mk_entry u expiry c) _ i Hf eq_refl Hvu).
    + rewrite length_insert.
      destruct (existsb _ _) eqn:He; [reflexivity|].
      exfalso. apply (existsb_uid_false u _ He). apply (find_index_Some_in u _ i Hf).
  - pose proof (find_index_None u _ Hf) as Hn. split.
    + intros Hvu. rewrite find_entry_snoc.
      destruct (find_entry v (whitelist st)); [reflexivity|].
      simpl. destruct (String.eqb_spec u v); [congruence|reflexivity].
    + destruct (existsb _ _) eqn:He.
      * exfalso. apply Hn. apply existsb_uid_iff. exact He.
      * rewrite length_app. simpl. lia.
Qed.

(** On a cache with distinct uids, after a successful rename the new uid
    finds the old entry with its uid replaced, and the old uid is gone. *)
Theorem change_then_get (st st' : cache_state) (old_uid new_uid : string) (e : entry) :
  NoDup (uids (whitelist st)) ->
  get_uid_entry st old_uid = Some e ->
  change_uid_entry st old_uid new_uid = ((true, SUCCESS), st') ->
  get_uid_entry st' new_uid = Some (set_uid new_uid e) /\
  get_uid_entry st' old_uid = None.
Proof.
  intros Hnd Hget. unfold change_uid_entry.
  destruct (existsb _ _) eqn:Hex; [discriminate|].
  pose proof (existsb_uid_false _ _ Hex) as Hnew.
  destruct (rename_first old_uid new_uid (whitelist st)) as [l'|] eqn:Hr; [|discriminate].
  intros Heq. injection Heq as <-.
  destruct (rename_first_split _ _ _ _ Hr) as (pre & e0 & suf & Hl & He0 & Hpre & ->).
  unfold get_uid_entry in Hget. rewrite Hl in Hget.
  rewrite (find_entry_split old_uid pre suf e0 Hpre He0) in Hget.
  injection Hget as <-.
  rewrite Hl, uids_app in Hnew. simpl in Hnew.
  assert (Hsuf : ~ In old_uid (uids suf)).
  { rewrite <- He0. apply (nodup_split_suffix pre suf e0). rewrite <- Hl. exact Hnd. }
  unfold get_uid_entry. simpl. split.
  - apply find_entry_split; [|reflexivity].
    intros Hin. apply Hnew. apply in_or_app. left. exact Hin.
  - rewrite find_entry_app_notin by exact Hpre. simpl.
    destruct (String.eqb_spec new_uid old_uid) as [Heq|_].
    + exfalso. apply Hnew. apply in_or_app. right. left. congruence.
    + apply find_entry_notin. exact Hsuf.
Qed.

Lemma change_then_get_witness :
  NoDup (uids (whitelist (mk_cache [mk_entry "A1" "2025-01-01" "x"] false 0))) /\
  get_uid_entry (mk_cache [mk_entry "A1" "2025-01-01" "x"] false 0) "A1"
    = Some (mk_entry "A1" "2025-01-01" "x") /\
  change_uid_entry (mk_cache [mk_entry "A1" "2025-01-01" "x"] false 0) "A1" "A2"
    = ((true, SUCCESS), mk_cache [mk_entry "A2" "2025-01-01" "x"] false 1) /\
  get_uid_entry (mk_cache [mk_entry "A2" "2025-01-01" "x"] false 1) "A2"
    = Some (set_uid "A2" (mk_entry "A1" "2025-01-01" "x")) /\
  get_uid_entry (mk_cache [mk_entry "A2" "2025-01-01" "x"] false 1) "A1" = None.
Proof.
  assert (H1 : NoDup (uids (whitelist (mk_cache [mk_entry "A1" "2025-01-01" "x"] false 0)))).
  { apply NoDup_singleton. }
  assert (H2 : get_uid_entry (mk_cache [mk_entry "A1" "2025-01-01" "x"] false 0) "A1"
               = Some (mk_entry "A1" "2025-01-01" "x")) by reflexivity.
  assert (H3 : change_uid_entry (mk_cache [mk_entry "A1" "2025-01-01" "x"] false 0) "A1" "A2"
               = ((true, SUCCESS), mk_cache [mk_entry "A2" "2025-01-01" "x"] false 1)).
  { vm_compute. reflexivity. }
  split; [exact H1|]. split; [exact H2|]. split; [exact H3|].
  exact (change_then_get _ _ "A1" "A2" _ H1 H2 H3).
Defined.

(** Renaming a uid to itself never succeeds and changes nothing: it
    reports [NEW_UID_EXISTS] when the uid is present and
    [OLD_UID_NOT_FOUND] otherwise. *)
Theorem change_uid_entry_same_uid (st : cache_state) (u : string) :
  change_uid_entry st u u
  = (if existsb (fun e => String.eqb (uid e) u) (whitelist st)
     then ((false, NEW_UID_EXISTS), st) else ((false, OLD_UID_NOT_FOUND), st)).
Proof.
  unfold change_uid_entry. destruct (existsb _ _) eqn:He; [reflexivity|].
  rewrite rename_first_notin; [reflexivity|]. apply existsb_uid_false. exact He.
Qed.

(** ** Further properties of the ledger *)

Lemma get_user_points_insert (st : points_state) (u v : string) (b : Z) (n : nat) :
  get_user_points (mk_points (<[u := b]> (points st)) n) v
  = if String.eqb u v then b else get_user_points st v.
Proof.
  unfold get_user_points. simpl.
  destruct (String.eqb_spec u v) as [->|Hne].
  - rewrite lookup_insert_eq. reflexivity.
  - rewrite lookup_insert_ne by exact Hne. reflexivity.
Qed.

Lemma get_after_credit (st : points_state) (u v : string) (amount : Z) :
  get_user_points (snd (add_user_points st u amount)) v
  = if String.eqb u v then get_user_points st u + amount else get_user_points st v.
Proof.
  unfold add_user_points, sync_points_in_background. cbn [snd points points_syncs].
  apply get_user_points_insert.
Qed.

Lemma get_after_debit (st : points_state) (u v : string) (amount : Z) :
  get_user_points (snd (deduct_user_points st u amount)) v
  = if get_user_points st u <? amount then get_user_points st v
    else if String.eqb u v then get_user_points st u - amount else get_user_points st v.
Proof.
  unfold deduct_user_points. destruct (get_user_points st u <? amount); [reflexivity|].
  unfold sync_points_in_background. cbn [snd points points_syncs].
  apply get_user_points_insert.
Qed.

(** Credit and debit change no other user's balance. *)
Theorem ledger_frame (st : points_state) (u v : string) (amount : Z) :
  v <> u ->
  get_user_points (snd (add_user_points st u amount)) v = get_user_points st v /\
  get_user_points (snd (deduct_user_points st u amount)) v = get_user_points st v.
Proof.
  intros Hvu. rewrite get_after_credit, get_after_debit.
  destruct (String.eqb_spec u v); [congruence|].
  split; [reflexivity|]. destruct (_ <? _); reflexivity.
Qed.

Lemma ledger_frame_witness :
  "bob" <> "acc" /\
  get_user_points (snd (add_user_points (mk_points {["bob" := 7]} 0) "acc" 3)) "bob"
    = get_user_points (mk_points {["bob" := 7]} 0) "bob".
Proof.
  assert (H : "bob" <> "acc") by discriminate.
  split; [exact H|]. exact (proj1 (ledger_frame _ "acc" "bob" 3 H)).
Defined.

(** A credit followed by a debit of the same amount on a non-negative
    balance: the debit succeeds, reports the original balance, and every
    user's balance is as before. *)
Theorem credit_then_debit_restores (st : points_state) (u : string) (amount : Z) :
  0 <= get_user_points st u ->
  fst (deduct_user_points (snd (add_user_points st u amount)) u amount)
    = (true, get_user_points st u) /\
  forall v, get_user_points (snd (deduct_user_points (snd (add_user_points st u amount)) u amount)) v
            = get_user_points st v.
Proof.
  intros Hcur.
  assert (Hmid : get_user_points (snd (add_user_points st u amount)) u
                 = get_user_points st u + amount).
  { rewrite get_after_credit, String.eqb_refl. reflexivity. }
  split.
  - unfold deduct_user_points at 1. rewrite Hmid.
    destruct (Z.ltb_spec (get_user_points st u + amount) amount); [lia|].
    simpl. f_equal. lia.
  - intros v. rewrite get_after_debit, Hmid, get_after_credit.
    destruct (Z.ltb_spec (get_user_points st u + amount) amount); [lia|].
    destruct (String.eqb_spec u v); [subst; lia|reflexivity].
Qed.

Lemma credit_then_debit_restores_witness :
  0 <= get_user_points (mk_points {["acc" := 10]} 0) "acc" /\
  fst (deduct_user_points (snd (add_user_points (mk_points {["acc" := 10]} 0) "acc" 15)) "acc" 15)
    = (true, get_user_points (mk_points {["acc" := 10]} 0) "acc").
Proof.
  assert (H : 0 <= get_user_points (mk_points {["acc" := 10]} 0) "acc").
  { vm_compute. discriminate. }
  split; [exact H|]. exact (proj1 (credit_then_debit_restores _ "acc" 15 H)).
Defined.

(** Debits on one account run one after another: the final balance is the
    initial one minus the sum of the amounts whose debit reported
    success. *)
Theorem run_debits_balance (st : points_state) (u : string) (amounts : list Z) :
  get_user_points (snd (run_debits st u amounts)) u
  = get_user_points st u - charged_total (fst (run_debits st u amounts)).
Proof.
  revert st. induction amounts as [|a rest IH]; intros st; simpl; [lia|].
  pose proof (get_after_debit st u u a) as Hg. rewrite String.eqb_refl in Hg.
  destruct (deduct_user_points st u a) as [[ok b] st1] eqn:Hd.
  assert (Hok : ok = negb (get_user_points st u <? a)).
  { unfold deduct_user_points in Hd. destruct (_ <? _); injection Hd; auto. }
  destruct (run_debits st1 u rest) as [log st2] eqn:Hr. simpl.
  specialize (IH st1). rewrite Hr in IH. simpl in IH, Hg. rewrite IH, Hg, Hok.
  destruct (Z.ltb_spec (get_user_points st u) a); simpl; lia.
Qed.



(** ** Properties of the modal handlers *)

Lemma add_uid_entry_true (st : cache_state) (u expiry c : string) :
  exists c', add_uid_entry st u expiry c = (true, c').
Proof. eexists. reflexivity. Qed.

(** With the point system on, the add-UID handler (not paused, [days > 0])
    either charges [5 * days] and stores the entry, reporting an update
    exactly when the uid was already present, or, when the balance is
    short, reports the balance and changes nothing. It never charges
    without storing the entry. *)
Theorem add_uid_submit_charges_and_stores (st : bot_state)
    (user_id u : string) (days : Z) (expiry c : string) :
  whitelist_paused st = false -> 0 < days ->
  (5 * days <= get_user_points (bot_ledger st) user_id ->
   exists st',
     add_uid_submit true st user_id u days expiry c
     = (match get_uid_entry (bot_cache st) u with
        | Some _ => UidUpdated (5 * days) (get_user_points (bot_ledger st) user_id - 5 * days)
        | None => UidAdded (5 * days) (get_user_points (bot_ledger st) user_id - 5 * days)
        end, st') /\
     get_user_points (bot_ledger st') user_id
       = get_user_points (bot_ledger st) user_id - 5 * days /\
     get_uid_entry (bot_cache st') u = Some (mk_entry u expiry c) /\
     whitelist_paused st' = false) /\
  (get_user_points (bot_ledger st) user_id < 5 * days ->
   add_uid_submit true st user_id u days expiry c
   = (AddNotEnoughPoints (get_user_points (bot_ledger st) user_id), st)).
Proof.
  intros Hp Hd. unfold add_uid_submit, calculate_points_needed, POINTS_PER_DAY.
  rewrite Hp. destruct (Z.leb_spec days 0); [lia|].
  split.
  - intros Henough.
    destruct (Z.ltb_spec (get_user_points (bot_ledger st) user_id) (days * 5)); [lia|].
    pose proof (get_after_debit (bot_ledger st) user_id user_id (days * 5)) as Hg.
    rewrite String.eqb_refl in Hg.
    destruct (deduct_user_points (bot_ledger st) user_id (days * 5)) as [[ok b] l'] eqn:Hdd.
    unfold deduct_user_points in Hdd.
    destruct (Z.ltb_spec (get_user_points (bot_ledger st) user_id) (days * 5)); [lia|].
    injection Hdd as <- <- Hl'. simpl in Hg.
    pose proof (add_uid_entry_get_same (bot_cache st) u expiry c) as Hget.
    destruct (add_uid_entry_true (bot_cache st) u expiry c) as [c' Hadd].
    rewrite Hadd in Hget |- *. simpl in Hget.
    exists (mk_bot c' l' false). split; [|split; [|split]].
    + replace (days * 5) with (5 * days) by lia. reflexivity.
    + simpl. rewrite Hg. lia.
    + exact Hget.
    + reflexivity.
  - intros Hshort.
    destruct (Z.ltb_spec (get_user_points (bot_ledger st) user_id) (days * 5)); [reflexivity|lia].
Qed.

Lemma add_uid_submit_charges_and_stores_witness :
  whitelist_paused (mk_bot initial_cache (mk_points {["buyer" := 20]} 0) false) = false /\
  0 < 5 /\
  add_uid_submit true (mk_bot initial_cache (mk_points {["buyer" := 20]} 0) false)
    "buyer" "A1" 5 "2025-01-01" "x"
  = (AddNotEnoughPoints 20, mk_bot initial_cache (mk_points {["buyer" := 20]} 0) false).
Proof.
  assert (H1 : whitelist_paused (mk_bot initial_cache (mk_points {["buyer" := 20]} 0) false)
               = false) by reflexivity.
  assert (H5 : 0 < 5) by lia.
  split; [exact H1|]. split; [exact H5|].
  pose proof (add_uid_submit_charges_and_stores _ "buyer" "A1" 5 "2025-01-01" "x" H1 H5)
    as [_ Hshort].
  apply Hshort. vm_compute. reflexivity.
Defined.

(** With the point system off, the add-UID handler (not paused,
    [days > 0]) stores the entry, reports it as updated exactly when the
    uid was already present and as added otherwise, and leaves the ledger
    untouched. *)
Theorem add_uid_submit_points_disabled (st : bot_state)
    (user_id u : string) (days : Z) (expiry c : string) :
  whitelist_paused st = false -> 0 < days ->
  exists out st',
    add_uid_submit false st user_id u days expiry c = (out, st') /\
    match out with
    | UidAdded _ _ => get_uid_entry (bot_cache st) u = None
    | UidUpdated _ _ => get_uid_entry (bot_cache st) u <> None
    | _ => False
    end /\
    bot_ledger st' = bot_ledger st /\
    get_uid_entry (bot_cache st') u = Some (mk_entry u expiry c).
Proof.
  intros Hp Hd. unfold add_uid_submit. rewrite Hp.
  destruct (Z.leb_spec days 0); [lia|].
  pose proof (add_uid_entry_get_same (bot_cache st) u expiry c) as Hget.
  destruct (add_uid_entry_true (bot_cache st) u expiry c) as [c' Hadd].
  rewrite Hadd in Hget |- *. simpl in Hget.
  destruct (get_uid_entry (bot_cache st) u) as [e|] eqn:He.
  - exists (UidUpdated 0 0), (mk_bot c' (bot_ledger st) false).
    split; [reflexivity|]. split; [discriminate|]. split; [reflexivity|exact Hget].
  - exists (UidAdded 0 0), (mk_bot c' (bot_ledger st) false).
    split; [reflexivity|]. split; [reflexivity|]. split; [reflexivity|exact Hget].
Qed.

Lemma add_uid_submit_points_disabled_witness :
  whitelist_paused (mk_bot (mk_cache [mk_entry "A1" "2024-12-01" "old"] true 0)
                           (mk_points {["dev" := 4]} 0) false) = false /\ 0 < 30 /\
  exists out st',
    add_uid_submit false (mk_bot (mk_cache [mk_entry "A1" "2024-12-01" "old"] true 0)
                                 (mk_points {["dev" := 4]} 0) false)
      "dev" "A1" 30 "2025-01-01" "x" = (out, st') /\
    match out with
    | UidAdded _ _ => get_uid_entry (mk_cache [mk_entry "A1" "2024-12-01" "old"] true 0) "A1" = None
    | UidUpdated _ _ => get_uid_entry (mk_cache [mk_entry "A1" "2024-12-01" "old"] true 0) "A1" <> None
    | _ => False
    end /\
    bot_ledger st' = mk_points {["dev" := 4]} 0 /\
    get_uid_entry (bot_cache st') "A1" = Some (mk_entry "A1" "2025-01-01" "x").
Proof.
  assert (H1 : whitelist_paused (mk_bot (mk_cache [mk_entry "A1" "2024-12-01" "old"] true 0)
                                        (mk_points {["dev" := 4]} 0) false) = false)
    by reflexivity.
  assert (H2 : 0 < 30) by lia.
  split; [exact H1|]. split; [exact H2|].
  exact (add_uid_submit_points_disabled _ "dev" "A1" 30 "2025-01-01" "x" H1 H2).
Defined.

(** ** Properties of the display helpers *)

Lemma split_dash_nonempty (s : string) : split_dash s <> [].
Proof.
  destruct s as [|a r]; simpl; [discriminate|].
  destruct (Ascii.eqb a "-"%char); [discriminate|].
  destruct (split_dash r); discriminate.
Qed.

Lemma split_dash_length (s : string) : length (split_dash s) = S (count_dash s).
Proof.
  induction s as [|a r IH]; simpl; [reflexivity|].
  destruct (Ascii.eqb a "-"%char); simpl; [rewrite IH; reflexivity|].
  destruct (split_dash r) as [|h t]; simpl in *; [lia|]. exact IH.
Qed.

Lemma split_dash_no_dash (s : string) : count_dash s = 0%nat -> split_dash s = [s].
Proof.
  induction s as [|a r IH]; simpl; [reflexivity|].
  destruct (Ascii.eqb a "-"%char); simpl; [discriminate|].
  intros H. rewrite IH by exact H. reflexivity.
Qed.

Lemma split_dash_app_dash (a b : string) :
  split_dash (String.append a (String "-" b)) = split_dash a ++ split_dash b.
Proof.
  induction a as [|x r IH]; simpl; [reflexivity|].
  destruct (Ascii.eqb x "-"%char); simpl; [rewrite IH; reflexivity|].
  rewrite IH. pose proof (split_dash_nonempty r) as Hne.
  destruct (split_dash r) as [|h t]; [contradiction|reflexivity].
Qed.

(** A "Y-M-D" date whose parts hold no '-' is shown as "D - M - Y". *)
Theorem format_box_date_ymd (y m d : string) :
  count_dash y = 0%nat -> count_dash m = 0%nat -> count_dash d = 0%nat ->
  format_box_date (String.append y (String "-" (String.append m (String "-" d))))
  = String.append d (String.append " - " (String.append m (String.append " - " y))).
Proof.
  intros Hy Hm Hd. unfold format_box_date.
  rewrite !split_dash_app_dash, (split_dash_no_dash y Hy), (split_dash_no_dash m Hm),
    (split_dash_no_dash d Hd).
  reflexivity.
Qed.

Lemma format_box_date_ymd_witness :
  (count_dash "2025" = 0%nat /\ count_dash "01" = 0%nat /\ count_dash "31" = 0%nat) /\
  format_box_date "2025-01-31" = "31 - 01 - 2025".
Proof.
  assert (Hy : count_dash "2025" = 0%nat) by reflexivity.
  assert (Hm : count_dash "01" = 0%nat) by reflexivity.
  assert (Hd : count_dash "31" = 0%nat) by reflexivity.
  split; [split; [exact Hy|split; [exact Hm|exact Hd]]|].
  exact (format_box_date_ymd "2025" "01" "31" Hy Hm Hd).
Defined.

(** Any value with a number of '-' other than two (no dash at all, or
    extra dashes) makes the unpacking fail and is shown unchanged. *)
Theorem format_box_date_passthrough (raw : string) :
  count_dash raw <> 2%nat -> format_box_date raw = raw.
Proof.
  intros H. unfold format_box_date. pose proof (split_dash_length raw) as Hl.
  destruct (split_dash raw) as [|y [|m [|d [|x t]]]]; simpl in Hl; try reflexivity.
  lia.
Qed.

Lemma format_box_date_passthrough_witness :
  count_dash "2025-01-31-x" <> 2%nat /\ format_box_date "2025-01-31-x" = "2025-01-31-x".
Proof.
  assert (H : count_dash "2025-01-31-x" <> 2%nat) by (vm_compute; discriminate).
  split; [exact H|]. exact (format_box_date_passthrough _ H).
Defined.



Lemma pack_fold_bound (lines : list pystr) (fields : list pystr) (acc : pystr) (all : list pystr) :
  (forall f, In f fields -> (length f <= 1000)%nat \/ In f all) ->
  ((length acc <= 1000)%nat \/ In acc all) ->
  (forall l, In l lines -> In l all) ->
  let '(fields', acc') := fold_left pack_step lines (fields, acc) in
  (forall f, In f fields' -> (length f <= 1000)%nat \/ In f all) /\
  ((length acc' <= 1000)%nat \/ In acc' all).
Proof.
  revert fields acc. induction lines as [|l rest IH]; intros fields acc Hf Ha Hl; simpl.
  - split; assumption.
  - destruct (Nat.ltb_spec 1000 (length acc + length l)).
    + apply IH.
      * intros f Hin. apply in_app_or in Hin as [Hin|[<-|[]]]; auto.
      * right. apply Hl. left. reflexivity.
      * intros l' Hin. apply Hl. right. exact Hin.
    + apply IH.
      * exact Hf.
      * left. rewrite length_app. lia.
      * intros l' Hin. apply Hl. right. exact Hin.
Qed.

(** Every field is at most 1000 characters long, unless it is a single
    line that is longer by itself. *)
Theorem list_uid_fields_bound (lines : list pystr) :
  forall f, In f (list_uid_fields lines) -> (length f <= 1000)%nat \/ In f lines.
Proof.
  unfold list_uid_fields.
  pose proof (pack_fold_bound lines [] [] lines) as H.
  destruct (fold_left pack_step lines ([], [])) as [fields acc].
  destruct H as [Hf Ha].
  - intros f [].
  - left. simpl. lia.
  - auto.
  - destruct acc as [|x t]; [exact Hf|].
    intros f Hin. apply in_app_or in Hin as [Hin|[<-|[]]]; auto.
Qed.

Lemma pack_fold_prefix (lines : list pystr) (fields : list pystr) (acc : pystr) :
  exists more, fst (fold_left pack_step lines (fields, acc)) = fields ++ more.
Proof.
  revert fields acc. induction lines as [|l rest IH]; intros fields acc; simpl.
  - exists []. rewrite app_nil_r. reflexivity.
  - destruct (Nat.ltb 1000 (length acc + length l)).
    + destruct (IH (fields ++ [acc]) l) as [more Hm]. exists (acc :: more).
      rewrite Hm, <- app_assoc. reflexivity.
    + apply IH.
Qed.

Lemma pack_fold_nonempty (lines : list pystr) (fields : list pystr) (acc : pystr) :
  acc <> [] -> Forall (fun l => l <> []) lines -> ~ In [] fields ->
  let '(fields', acc') := fold_left pack_step lines (fields, acc) in
  ~ In [] fields' /\ acc' <> [].
Proof.
  revert fields acc. induction lines as [|l rest IH]; intros fields acc Ha Hl Hf; simpl.
  - split; assumption.
  - inversion Hl as [|? ? Hl0 Hrest]; subst.
    destruct (Nat.ltb 1000 (length acc + length l)); apply IH; auto.
    + intros Hin. apply in_app_or in Hin as [Hin|[Heq|[]]]; [exact (Hf Hin)|].
      apply Ha. exact Heq.
    + destruct acc; [contradiction|discriminate].
Qed.

(** When every line is non-empty, the fields contain an empty value
    exactly when the first line alone is longer than 1000 characters:
    the loop then flushes the still empty [uid_list] as a field. *)
Theorem list_uid_fields_empty_field (lines : list pystr) :
  Forall (fun l => l <> []) lines ->
  (In [] (list_uid_fields lines) <->
   exists l rest, lines = l :: rest /\ (1000 < length l)%nat).
Proof.
  intros Hne. destruct lines as [|l rest].
  - simpl. split; [intros []|]. intros (l & rest & Heq & _). discriminate.
  - inversion Hne as [|? ? Hl Hrest]; subst.
    unfold list_uid_fields. simpl.
    destruct (Nat.ltb_spec 1000 (length l)) as [Hlong|Hshort].
    + split; [intros _; exists l, rest; auto|intros _].
      destruct (pack_fold_prefix rest [[]] l) as [more Hm].
      destruct (fold_left pack_step rest ([[]], l)) as [fields acc].
      simpl in Hm. subst fields.
      assert (Hin : In [] ([] :: more)) by (left; reflexivity).
      destruct acc; [exact Hin|]. apply in_or_app. left. exact Hin.
    + pose proof (pack_fold_nonempty rest [] l Hl Hrest ltac:(intros [])) as H.
      destruct (fold_left pack_step rest ([], l)) as [fields acc].
      destruct H as [Hf Ha].
      split.
      * intros Hin. exfalso. destruct acc as [|x t]; [contradiction|].
        apply in_app_or in Hin as [Hin|[Heq|[]]]; [exact (Hf Hin)|discriminate].
      * intros (l' & rest' & Heq & Hlen). injection Heq as <- <-. lia.
Qed.

Lemma list_uid_fields_empty_field_witness :
  Forall (fun l : pystr => l <> []) [repeat 1 1001; repeat 2 10] /\
  In [] (list_uid_fields [repeat 1 1001; repeat 2 10]).
Proof.
  assert (H : Forall (fun l : pystr => l <> []) [repeat 1 1001; repeat 2 10]).
  { repeat constructor; simpl; discriminate. }
  split; [exact H|].
  apply (proj2 (list_uid_fields_empty_field _ H)).
  exists (repeat 1 1001), [repeat 2 10]. split; [reflexivity|].
  rewrite repeat_length. lia.
Defined.

Lemma list_uid_fields_bound_witness :
  In (repeat 1 1001) (list_uid_fields [repeat 1 1001; repeat 2 10]) /\
  ((length (repeat 1 1001) <= 1000)%nat \/ In (repeat 1 1001) [repeat 1 1001; repeat 2 10]).
Proof.
  assert (H : In (repeat 1 1001) (list_uid_fields [repeat 1 1001; repeat 2 10])).
  { vm_compute. right. left. reflexivity. }
  split; [exact H|].
  exact (list_uid_fields_bound _ _ H).
Defined.
